(** * Chat front-end: route authorization gate and multimodal input

    A shallow embedding of three pieces of the chat application:

    - [authConfig.callbacks.authorized] (auth.config.ts), the per-request
      routing decision of the authentication middleware;
    - [PureMultimodalInput] and [PureSendButton] (multimodal-input), the
      chat input component: textarea sizing, draft persistence, the upload
      queue, and submission;
    - the model registry (models.ts) and the provider dispatch
      [customModel].

    JavaScript strings are modelled as [string]; [s.startsWith(p)] is
    [String.prefix p s]. Component code runs in a small state monad that
    also records, in order, every call it makes. *)

From Stdlib Require Import ZArith String Ascii List Bool Lia.
From stdpp Require Import base option list strings gmap.

Set Warnings "-register-all".
Local Open Scope Z_scope.

(** [s.startsWith(p)] *)
Definition startsWith (s p : string) : bool := String.prefix p s.

(** JavaScript truthiness of a string: only the empty string is falsy.
    [input.length === 0] is the negation of the same test. *)
Definition truthy (s : string) : bool :=
  match s with
  | EmptyString => false
  | String _ _ => true
  end.

(** [a || b] on strings. *)
Definition or_else (a b : string) : string := if truthy a then a else b.

(* ================================================================== *)
(** ** Route authorization gate *)
(* ================================================================== *)

Module Auth.

Record User := { email : string }.

(** The session object handed to the callback: [auth] may be null and
    [auth.user] may be undefined. *)
Record Session := { user : option User }.

Record NextUrl := { origin : string; pathname : string }.

(** What the callback returns: [true], [false], or
    [Response.redirect(new URL(target, nextUrl))]. *)
Inductive Result :=
| ReturnTrue
| ReturnFalse
| Redirect (to : string) (base : NextUrl).

(** The routing decisions of the gate, as the framework reads them. *)
Inductive Decision := Allow | Deny | RedirectHome | RedirectElsewhere.

Definition decision (r : Result) : Decision :=
  match r with
  | ReturnTrue => Allow
  | ReturnFalse => Deny
  | Redirect to _ => if String.eqb to "/" then RedirectHome else RedirectElsewhere
  end.

(** [!!auth?.user] *)
Definition isLoggedIn (auth : option Session) : bool :=
  match auth with
  | Some s => match user s with Some _ => true | None => false end
  | None => false
  end.

Definition isOnChat (nextUrl : NextUrl) : bool := startsWith (pathname nextUrl) "/".
Definition isOnRegister (nextUrl : NextUrl) : bool := startsWith (pathname nextUrl) "/register".
Definition isOnLogin (nextUrl : NextUrl) : bool := startsWith (pathname nextUrl) "/login".

(** The [return] statements of [authorized], in source order. *)
Inductive Site :=
| Rule1            (* line 23: redirect, logged in on login/register *)
| Rule2            (* line 28: true, login/register *)
| Rule3LoggedIn    (* line 33: true *)
| Rule3Anonymous   (* line 34: false *)
| FallLoggedIn     (* line 38: redirect *)
| FallAnonymous.   (* line 41: true *)

(** Control flow of [authorized]: which [return] is taken. *)
Definition authorized_site (auth : option Session) (nextUrl : NextUrl) : Site :=
  if isLoggedIn auth && (isOnLogin nextUrl || isOnRegister nextUrl) then Rule1
  else if isOnRegister nextUrl || isOnLogin nextUrl then Rule2
  else if isOnChat nextUrl then
    (if isLoggedIn auth then Rule3LoggedIn else Rule3Anonymous)
  else if isLoggedIn auth then FallLoggedIn
  else FallAnonymous.

(** [authorized({ auth, request: { nextUrl } })] *)
Definition authorized (auth : option Session) (nextUrl : NextUrl) : Result :=
  if isLoggedIn auth && (isOnLogin nextUrl || isOnRegister nextUrl) then
    Redirect "/" nextUrl
  else if isOnRegister nextUrl || isOnLogin nextUrl then
    ReturnTrue
  else if isOnChat nextUrl then
    (if isLoggedIn auth then ReturnTrue else ReturnFalse)
  else if isLoggedIn auth then
    Redirect "/" nextUrl
  else
    ReturnTrue.

(** The value returned at each site. *)
Definition site_value (nextUrl : NextUrl) (s : Site) : Result :=
  match s with
  | Rule1 => Redirect "/" nextUrl
  | Rule2 => ReturnTrue
  | Rule3LoggedIn => ReturnTrue
  | Rule3Anonymous => ReturnFalse
  | FallLoggedIn => Redirect "/" nextUrl
  | FallAnonymous => ReturnTrue
  end.


(** A request URL: the pathname of a parsed http(s) URL is never empty
    and begins with a slash. *)
Definition request_url (nextUrl : NextUrl) : Prop :=
  startsWith (pathname nextUrl) "/" = true.

Definition url (p : string) : NextUrl :=
  {| origin := "http://localhost:3000"; pathname := p |}.

Definition loggedIn : option Session := Some {| user := Some {| email := "a@b.c" |} |}.
Definition anonymous : option Session := None.

(** [authConfig.pages] *)
Record Pages := { signIn : string; newUser : string }.

Definition pages : Pages := {| signIn := "/login"; newUser := "/" |}.

(** Where the browser is sent after the callback has answered: nowhere
    when the request is let through; to the configured sign-in page when
    it is denied ("Will redirect to login"); to the target, resolved
    against the request URL, when the callback redirects. *)
Definition landing (r : Result) (nextUrl : NextUrl) : option NextUrl :=
  match r with
  | ReturnTrue => None
  | ReturnFalse => Some {| origin := origin nextUrl; pathname := signIn pages |}
  | Redirect to base => Some {| origin := origin base; pathname := to |}
  end.

End Auth.

(* ================================================================== *)
(** ** Model registry and provider dispatch *)
(* ================================================================== *)

Module Models.

Record Model := {
  id : string;
  label : string;
  apiIdentifier : string;
  description : string;
}.

Definition models : list Model :=
  [ {| id := "gpt-4o-mini"; label := "GPT 4o mini";
       apiIdentifier := "gpt-4o-mini";
       description := "Small model for fast, lightweight tasks" |};
    {| id := "gpt-4o"; label := "GPT 4o";
       apiIdentifier := "gpt-4o";
       description := "For complex, multi-step tasks" |};
    {| id := "claude-3-opus"; label := "Claude 3 Opus";
       apiIdentifier := "claude-3-opus-20240229";
       description := "Most powerful Anthropic model for complex tasks" |};
    {| id := "claude-3-5-sonnet"; label := "Claude 3 Sonnet";
       apiIdentifier := "claude-3-5-sonnet-latest";
       description := "Balanced Anthropic model for most tasks" |} ].

Definition DEFAULT_MODEL_NAME : string := "gpt-4o-mini".

(** A model handle of one of the two provider SDKs. *)
Inductive ProviderModel :=
| anthropic (modelId : string)
| openai (modelId : string).

Inductive Middleware := customMiddleware.

Record LanguageModel := wrapLanguageModel {
  model : ProviderModel;
  middleware : Middleware;
}.

Definition customModel (apiIdentifier : string) : LanguageModel :=
  if startsWith apiIdentifier "claude-" then
    wrapLanguageModel (anthropic apiIdentifier) customMiddleware
  else
    wrapLanguageModel (openai apiIdentifier) customMiddleware.

End Models.

(* ================================================================== *)
(** ** Chat input component *)
(* ================================================================== *)

Module Input.

(** *** Values *)

(** A parsed JSON document, as [response.json()] resolves to. An object
    is its property list. *)
Inductive Json :=
| JNull
| JBool (b : bool)
| JNum (n : Z)
| JStr (s : string)
| JArr (items : list Json)
| JObj (fields : list (string * Json)).

(** A JavaScript value read out of such a document; [None] is
    [undefined]. *)
Definition JsValue := option Json.

(** How an expression completes: with a value, or by throwing. *)
Inductive Completion (A : Type) :=
| Normal (a : A)
| Throw.
Arguments Normal {A} a.
Arguments Throw {A}.

Fixpoint assoc (k : string) (fields : list (string * Json)) : JsValue :=
  match fields with
  | [] => None
  | (k', v) :: rest => if String.eqb k k' then Some v else assoc k rest
  end.

(** [const { k } = v]: destructuring [null] throws a TypeError; a
    property that is absent, or any of these keys on a primitive or an
    array, reads as [undefined]. *)
Definition getProp (v : Json) (k : string) : Completion JsValue :=
  match v with
  | JNull => Throw
  | JObj fields => Normal (assoc k fields)
  | _ => Normal None
  end.

Record Attachment := {
  url : JsValue;
  name : JsValue;
  contentType : JsValue;
}.

Record File := { file_name : string; file_size : Z }.

(** An HTTP response: its [ok] flag and what [json()] resolves to
    ([None]: the body is not JSON and [json()] rejects). *)
Record Response := { ok : bool; json : option Json }.

(** [style.height] of the textarea. *)
Inductive CssHeight := Auto | Px (n : Z).

(** The textarea element. [scrollHeightOf] is the browser's layout: the
    scroll height it reports for a given content and style height. *)
Record Textarea := {
  value : string;
  height : CssHeight;
  scrollHeightOf : string → CssHeight → Z;
}.

Definition scrollHeight (t : Textarea) : Z :=
  scrollHeightOf t (value t) (height t).

Definition with_height (h : CssHeight) (t : Textarea) : Textarea :=
  {| value := value t; height := h; scrollHeightOf := scrollHeightOf t |}.

Definition with_value (v : string) (t : Textarea) : Textarea :=
  {| value := v; height := height t; scrollHeightOf := scrollHeightOf t |}.

(** *** Calls made by the component, in the order they happen *)

Inductive Call :=
| ReplaceState (path : string)          (* window.history.replaceState({}, '', path) *)
| HandleSubmit (experimental_attachments : list Attachment)
| SetAttachments (next : list Attachment)
| SetLocalStorageInput (v : string)
| SetInput (v : string)
| SetUploadQueue (q : list string)
| SetStyleHeight (h : CssHeight)
| Focus
| PreventDefault
| ToastError (message : JsValue)
| Fetch (path method : string) (file : File)
| Stop
| SanitizeMessages.

(** *** Component state *)

Record State := mkState {
  chatId : string;
  input : string;
  isLoading : bool;
  attachments : list Attachment;
  uploadQueue : list string;
  localStorage : gmap string string;
  textareaRef : option Textarea;
  width : Z;
}.

Definition set_input (v : string) (s : State) : State :=
  mkState (chatId s) v (isLoading s) (attachments s) (uploadQueue s)
          (localStorage s) (textareaRef s) (width s).
Definition set_attachments (a : list Attachment) (s : State) : State :=
  mkState (chatId s) (input s) (isLoading s) a (uploadQueue s)
          (localStorage s) (textareaRef s) (width s).
Definition set_uploadQueue (q : list string) (s : State) : State :=
  mkState (chatId s) (input s) (isLoading s) (attachments s) q
          (localStorage s) (textareaRef s) (width s).
Definition set_localStorage (m : gmap string string) (s : State) : State :=
  mkState (chatId s) (input s) (isLoading s) (attachments s) (uploadQueue s)
          m (textareaRef s) (width s).
Definition set_textareaRef (t : option Textarea) (s : State) : State :=
  mkState (chatId s) (input s) (isLoading s) (attachments s) (uploadQueue s)
          (localStorage s) t (width s).

(** *** The monad: state passing, with the calls written out *)

Definition M (A : Type) : Type := State → A * State * list Call.

Definition ret {A} (a : A) : M A := λ s, (a, s, []).

Definition bind {A B} (m : M A) (f : A → M B) : M B :=
  λ s, let r := m s in
       let r' := f (fst (fst r)) (snd (fst r)) in
       (fst r', snd r ++ snd r').

Definition gets {A} (f : State → A) : M A := λ s, (f s, s, []).
Definition modify (f : State → State) : M unit := λ s, ((), f s, []).
Definition call (c : Call) : M unit := λ s, ((), s, [c]).

Definition result {A} (m : M A) (s : State) : A := fst (fst (m s)).
Definition exec {A} (m : M A) (s : State) : State := snd (fst (m s)).
Definition calls {A} (m : M A) (s : State) : list Call := snd (m s).

Declare Scope comp_scope.
Delimit Scope comp_scope with comp.
Bind Scope comp_scope with M.
Notation "x <- m ;; k" := (bind m (λ x, k))
  (at level 100, m at next level, right associativity) : comp_scope.
Notation "m ;; k" := (bind m (λ _, k))
  (at level 100, right associativity) : comp_scope.
Local Open Scope comp_scope.

Fixpoint forEach {A} (f : A → M unit) (l : list A) : M unit :=
  match l with
  | [] => ret ()
  | x :: rest => f x ;; forEach f rest
  end.

(** *** Primitive operations *)

Definition replaceState (path : string) : M unit := call (ReplaceState path).

(** The send operation supplied by the parent. *)
Definition handleSubmit (experimental_attachments : list Attachment) : M unit :=
  call (HandleSubmit experimental_attachments).

(** [setAttachments(updater)] *)
Definition setAttachments (updater : list Attachment → list Attachment) : M unit :=
  current <- gets attachments ;;
  modify (set_attachments (updater current)) ;;
  call (SetAttachments (updater current)).

Definition setInput (v : string) : M unit :=
  modify (set_input v) ;; call (SetInput v).

Definition setUploadQueue (q : list string) : M unit :=
  modify (set_uploadQueue q) ;; call (SetUploadQueue q).

(** [useLocalStorage('input', '')]: the value read is the stored one, or
    the initial value [''] when the slot is absent; the setter writes the
    slot. *)
Definition localStorageInput (s : State) : string :=
  default "" (localStorage s !! "input").

Definition setLocalStorageInput (v : string) : M unit :=
  modify (λ s, set_localStorage (<["input" := v]> (localStorage s)) s) ;;
  call (SetLocalStorageInput v).

(** [textareaRef.current.style.height = h] *)
Definition setStyleHeight (h : CssHeight) : M unit :=
  modify (λ s, set_textareaRef (with_height h <$> textareaRef s) s) ;;
  call (SetStyleHeight h).

(** [textareaRef.current.scrollHeight] *)
Definition getScrollHeight : M Z :=
  gets (λ s, from_option scrollHeight 0 (textareaRef s)).

Definition toastError (message : JsValue) : M unit := call (ToastError message).
Definition preventDefault : M unit := call PreventDefault.
Definition fetch (path method : string) (file : File) : M unit :=
  call (Fetch path method file).

(** *** Textarea sizing *)

Definition adjustHeight : M unit :=
  current <- gets textareaRef ;;
  match current with
  | Some _ =>
      setStyleHeight Auto ;;
      h <- getScrollHeight ;;
      setStyleHeight (Px (h + 2))
  | None => ret ()
  end.

Definition resetHeight : M unit :=
  current <- gets textareaRef ;;
  match current with
  | Some _ =>
      setStyleHeight Auto ;;
      setStyleHeight (Px 98)
  | None => ret ()
  end.

(** What [adjustHeight] leaves in the textarea: the scroll height the
    layout reports at auto height, plus two. *)
Definition adjusted (t : Textarea) : Textarea :=
  with_height (Px (scrollHeightOf t (value t) Auto + 2)) t.

(** *** Submission *)

(** [textareaRef.current?.focus()] *)
Definition focus : M unit :=
  current <- gets textareaRef ;;
  match current with
  | Some _ => call Focus
  | None => ret ()
  end.

(** [width && width > 768] on a number. *)
Definition wide (w : Z) : bool := negb (w =? 0) && (768 <? w).

Definition submitForm : M unit :=
  id <- gets chatId ;;
  current <- gets attachments ;;
  w <- gets width ;;
  replaceState ("/chat/" +:+ id) ;;
  handleSubmit current ;;
  setAttachments (λ _, []) ;;
  setLocalStorageInput "" ;;
  resetHeight ;;
  if wide w then focus else ret ().

Record KeyboardEvent := { key : string; shiftKey : bool }.

Definition pleaseWait : JsValue :=
  Some (JStr "Please wait for the model to finish its response!").

(** The textarea's [onKeyDown]. *)
Definition onKeyDown (event : KeyboardEvent) : M unit :=
  if String.eqb (key event) "Enter" && negb (shiftKey event) then
    preventDefault ;;
    loading <- gets isLoading ;;
    if loading then toastError pleaseWait
    else submitForm
  else ret ().

(** A rendered button. *)
Record Button := { disabled : bool; onClick : M unit }.

Definition PureSendButton (submitForm : M unit) (input : string)
    (uploadQueue : list string) : Button :=
  {| disabled := (String.length input =? 0)%nat || (0 <? length uploadQueue)%nat;
     onClick := preventDefault ;; submitForm |}.

Definition PureStopButton : Button :=
  {| disabled := false;
     onClick := preventDefault ;; call Stop ;; call SanitizeMessages |}.

(** The control rendered at the bottom right: [isLoading ? <StopButton/>
    : <SendButton/>]. *)
Inductive Control :=
| StopControl (b : Button)
| SendControl (b : Button).

(** The control as a render from state [s] produces it, the send button
    receiving that render's [submitForm]. The send button is memoised: what
    stays on screen when the comparator keeps an earlier render is
    [renderMemoControl] below. *)
Definition renderControl (s : State) : Control :=
  if isLoading s then StopControl PureStopButton
  else SendControl (PureSendButton submitForm (input s) (uploadQueue s)).

(** A click on a button: a disabled button dispatches no click event. *)
Definition click (b : Button) : M unit :=
  if disabled b then ret () else onClick b.

(** A click on the send button, when one is rendered. *)
Definition clickSend : M unit :=
  λ s, match renderControl s with
       | SendControl b => click b s
       | StopControl _ => ret () s
       end.

Definition isHandleSubmit (c : Call) : bool :=
  match c with HandleSubmit _ => true | _ => false end.

Definition isToastError (c : Call) : bool :=
  match c with ToastError _ => true | _ => false end.

Definition isFetch (c : Call) : bool :=
  match c with Fetch _ _ _ => true | _ => false end.

(** A run submits when it invokes the send operation. *)
Definition submits (m : M unit) (s : State) : bool :=
  existsb isHandleSubmit (calls m s).

(** The three conditions under which submission is to be blocked. *)
Definition blocked (s : State) : bool :=
  isLoading s || negb (truthy (input s)) || (0 <? length (uploadQueue s))%nat.

(** *** Upload of one file *)

Definition uploadFailed : JsValue :=
  Some (JStr "Failed to upload file, please try again!").

(** The [try] block of [uploadFile] after [await fetch(...)]. [answer] is
    how the request ends: [None] when [fetch] rejects. *)
Definition uploadFile_try (answer : option Response) : M (Completion (option Attachment)) :=
  match answer with
  | None => ret Throw
  | Some response =>
      if ok response then
        match json response with
        | None => ret Throw
        | Some data =>
            match getProp data "url", getProp data "pathname",
                  getProp data "contentType" with
            | Normal u, Normal pathname, Normal ct =>
                ret (Normal (Some {| url := u; name := pathname; contentType := ct |}))
            | _, _, _ => ret Throw
            end
        end
      else
        match json response with
        | None => ret Throw
        | Some payload =>
            match getProp payload "error" with
            | Normal error => toastError error ;; ret (Normal None)
            | Throw => ret Throw
            end
        end
  end.

(** [uploadFile] from the point where its request has ended: the [try]
    block with its [catch]. It returns [None] for [undefined]. *)
Definition uploadFile_resume (answer : option Response) : M (option Attachment) :=
  r <- uploadFile_try answer ;;
  match r with
  | Normal a => ret a
  | Throw => toastError uploadFailed ;; ret None
  end.

(** [uploadFile(file)], for a request that ends with [answer]. *)
Definition uploadFile (file : File) (answer : option Response) : M (option Attachment) :=
  fetch "/api/files/upload" "POST" file ;;
  uploadFile_resume answer.

(** *** The upload batch *)

(** A selected file together with how its upload request ends. *)
Abbreviation Job := (File * option Response)%type.

(** The result array of [Promise.all]: slot [i] is filled when promise
    [i] resolves. *)
Abbreviation Slots := (list (option (option Attachment))).

(** [handleFileChange] up to its [await]: the queue is set, and
    [files.map(uploadFile)] starts every upload in input order. *)
Definition handleFileChange_start (files : list File) : M unit :=
  setUploadQueue (file_name <$> files) ;;
  forEach (fetch "/api/files/upload" "POST") files.

(** The uploads complete in the order [order] (indices into [jobs]); each
    completion resumes its [uploadFile] and fills its slot. *)
Fixpoint settle (jobs : list Job) (order : list nat) (slots : Slots) : M Slots :=
  match order with
  | [] => ret slots
  | i :: rest =>
      match jobs !! i with
      | Some job =>
          r <- uploadFile_resume (snd job) ;;
          settle jobs rest (<[i := Some r]> slots)
      | None => settle jobs rest slots
      end
  end.

(** [Promise.all] resolves, with the array of results, once every slot
    is filled. *)
Definition promiseAll (slots : Slots) : option (list (option Attachment)) :=
  mapM id slots.

(** [uploadedAttachments.filter((attachment) => attachment !== undefined)] *)
Definition defined (uploadedAttachments : list (option Attachment)) : list Attachment :=
  omap id uploadedAttachments.

(** [handleFileChange] after its [await]: the functional update of the
    attachment list, then the [finally] block. *)
Definition handleFileChange_finish (uploadedAttachments : list (option Attachment)) : M unit :=
  setAttachments (λ currentAttachments,
                    currentAttachments ++ defined uploadedAttachments) ;;
  setUploadQueue [].

(** The part of a batch that runs as the uploads complete. *)
Definition handleFileChange_await (jobs : list Job) (order : list nat) : M unit :=
  slots <- settle jobs order (replicate (length jobs) None) ;;
  match promiseAll slots with
  | Some uploadedAttachments => handleFileChange_finish uploadedAttachments
  | None => ret ()
  end.

(** A whole batch, run without other events in between. *)
Definition handleFileChange (jobs : list Job) (order : list nat) : M unit :=
  handleFileChange_start (fst <$> jobs) ;;
  handleFileChange_await jobs order.

(** What one upload contributes: its attachment, when it succeeds. This
    is [uploadFile]'s return value, read off without its calls. *)
Definition uploaded (job : Job) : option Attachment :=
  match snd job with
  | Some response =>
      if ok response then
        match json response with
        | Some data =>
            match getProp data "url", getProp data "pathname",
                  getProp data "contentType" with
            | Normal u, Normal pathname, Normal ct =>
                Some {| url := u; name := pathname; contentType := ct |}
            | _, _, _ => None
            end
        | None => None
        end
      else None
  | None => None
  end.

Definition succeeded (job : Job) : bool := bool_decide (is_Some (uploaded job)).

Definition failed (job : Job) : bool := negb (succeeded job).

(** The slots after the completions in [order], read off without the
    calls made on the way. *)
Fixpoint settled (jobs : list Job) (order : list nat) (slots : Slots) : Slots :=
  match order with
  | [] => slots
  | i :: rest =>
      match jobs !! i with
      | Some job => settled jobs rest (<[i := Some (uploaded job)]> slots)
      | None => settled jobs rest slots
      end
  end.

(** Whether the upload at index [i] fails. *)
Definition failedAt (jobs : list Job) (i : nat) : bool :=
  match jobs !! i with
  | Some job => failed job
  | None => false
  end.

(** Number of elements that pass a test. *)
Definition count {A} (p : A → bool) (l : list A) : nat :=
  length (List.filter p l).

(** *** Attachment previews *)

Record Preview := { attachment : Attachment; isUploading : bool }.

Definition previews (s : State) : list Preview :=
  if (0 <? length (attachments s))%nat || (0 <? length (uploadQueue s))%nat then
    ((λ a, {| attachment := a; isUploading := false |}) <$> attachments s)
    ++ ((λ filename,
           {| attachment := {| url := Some (JStr "");
                               name := Some (JStr filename);
                               contentType := Some (JStr "") |};
              isUploading := true |}) <$> uploadQueue s)
  else [].

(** *** Draft persistence *)

(** The hydration effect (lines 142-149). [localStorageInput] is the
    value the storage hook gave the first render. *)
Definition hydrate (localStorageInput : string) : M unit :=
  current <- gets textareaRef ;;
  match current with
  | Some t =>
      let domValue := value t in
      let finalValue := or_else (or_else domValue localStorageInput) "" in
      setInput finalValue ;;
      adjustHeight
  | None => ret ()
  end.

(** A render commits: the controlled textarea shows [input], and the
    effect on [input] (lines 151-153) runs when [input] differs from the
    render before. *)
Definition rerender (previous : string) : M unit :=
  i <- gets input ;;
  modify (λ s, set_textareaRef (with_value i <$> textareaRef s) s) ;;
  if String.eqb i previous then ret () else setLocalStorageInput i.

(** The effects of the first render, in declaration order, followed by
    the render that [setInput] causes. *)
Definition mount : M unit :=
  rendered <- gets input ;;
  stored <- gets localStorageInput ;;
  (current <- gets textareaRef ;;
   match current with Some _ => adjustHeight | None => ret () end) ;;
  hydrate stored ;;
  setLocalStorageInput rendered ;;
  rerender rendered.

Definition handleInput (targetValue : string) : M unit :=
  setInput targetValue ;;
  adjustHeight.

(** The user edits the textarea to hold [v]: the element changes, the
    change handler runs, then the component renders again. When [v] is
    the value already displayed there is no change and no change event. *)
Definition typeText (v : string) : M unit :=
  rendered <- gets input ;;
  if String.eqb v rendered then ret ()
  else
    modify (λ s, set_textareaRef (with_value v <$> textareaRef s) s) ;;
    handleInput v ;;
    rerender rendered.

(** A new instance of the component over the same durable storage, as
    after a page load: the parent renders [rendered], and the textarea
    element holds [domValue] when the effects run. The textarea is
    controlled ([value={input}]), so the element holds [rendered] unless
    text was entered into it before hydration; the instances that occur
    are those with [domValue = rendered] and those with [rendered] empty. *)
Definition reload (storage : gmap string string) (id rendered domValue : string)
    (layout : string → CssHeight → Z) (w : Z) : State :=
  {| chatId := id; input := rendered; isLoading := false;
     attachments := []; uploadQueue := [];
     localStorage := storage;
     textareaRef := Some {| value := domValue; height := Auto;
                            scrollHeightOf := layout |};
     width := w |}.

(** *** Sample data *)

Definition lines (content : string) (h : CssHeight) : Z :=
  match h with
  | Auto => 24 * (1 + Z.of_nat (String.length content))
  | Px n => Z.max n (24 * (1 + Z.of_nat (String.length content)))
  end.

Definition photo : File := {| file_name := "photo.png"; file_size := 1024 |}.
Definition notes : File := {| file_name := "notes.txt"; file_size := 12 |}.
Definition video : File := {| file_name := "video.mp4"; file_size := 4096 |}.

Definition stored (u p ct : string) : Response :=
  {| ok := true;
     json := Some (JObj [("url", JStr u); ("pathname", JStr p);
                         ("contentType", JStr ct)]) |}.

Definition refused (message : string) : Response :=
  {| ok := false; json := Some (JObj [("error", JStr message)]) |}.

Definition idle : State :=
  reload ∅ "chat-1" "" "" lines 1024.

(** Three files picked at once: the second is refused by the server. *)
Definition picked : list Job :=
  [ (photo, Some (stored "https://blob.example/photo.png" "photo.png" "image/png"));
    (notes, Some (refused "File type should be JPEG or PNG"));
    (video, Some (stored "https://blob.example/video.mp4" "video.mp4" "video/mp4")) ].



Definition photoAttachment : Attachment :=
  {| url := Some (JStr "https://blob.example/photo.png");
     name := Some (JStr "photo.png");
     contentType := Some (JStr "image/png") |}.

Definition videoAttachment : Attachment :=
  {| url := Some (JStr "https://blob.example/video.mp4");
     name := Some (JStr "video.mp4");
     contentType := Some (JStr "video/mp4") |}.

(** *** Further parts of the component *)

(** The props of the memoised send button. *)
Record SendButtonProps := {
  props_submitForm : M unit;
  props_input : string;
  props_uploadQueue : list string;
}.

(** The comparator given to [memo] for [SendButton]: [true] keeps the
    button as it was rendered. *)
Definition sendButtonPropsEqual (prevProps nextProps : SendButtonProps) : bool :=
  if negb (length (props_uploadQueue prevProps)
           =? length (props_uploadQueue nextProps))%nat then false
  else if negb (String.eqb (props_input prevProps) (props_input nextProps)) then false
  else true.

Definition renderSendButton (props : SendButtonProps) : Button :=
  PureSendButton (props_submitForm props) (props_input props)
                 (props_uploadQueue props).

(** The [submitForm] closure made by a render in which [chatId],
    [attachments] and [width] had these values: [useCallback] keeps them
    until the next render that makes a new closure. The refs and the
    setters it uses are read when it runs. *)
Definition submitFormOf (id : string) (captured : list Attachment) (w : Z) : M unit :=
  replaceState ("/chat/" +:+ id) ;;
  handleSubmit captured ;;
  setAttachments (λ _, []) ;;
  setLocalStorageInput "" ;;
  resetHeight ;;
  if wide w then focus else ret ().

(** The props a render from state [s] hands to [SendButton]. *)
Definition sendButtonProps (s : State) : SendButtonProps :=
  {| props_submitForm := submitFormOf (chatId s) (attachments s) (width s);
     props_input := input s;
     props_uploadQueue := uploadQueue s |}.

(** [memo(PureSendButton, comparator)]: [keptProps] are the props the
    button on screen was rendered from; it is rendered anew only when the
    comparator finds the next props different. *)
Definition memoSendButton (keptProps nextProps : SendButtonProps) : Button :=
  if sendButtonPropsEqual keptProps nextProps then renderSendButton keptProps
  else renderSendButton nextProps.

(** The control on screen after a render from state [s], the send button
    having last been rendered from [keptProps]. *)
Definition renderMemoControl (keptProps : SendButtonProps) (s : State) : Control :=
  if isLoading s then StopControl PureStopButton
  else SendControl (memoSendButton keptProps (sendButtonProps s)).

(** A click on whichever control is on screen at the bottom right. *)
Definition clickMemoControl (keptProps : SendButtonProps) : M unit :=
  λ s, match renderMemoControl keptProps s with
       | SendControl b => click b s
       | StopControl b => click b s
       end.

(** Whether the suggested actions are rendered (lines 241-245). *)
Definition showSuggestedActions {Message} (messages : list Message) (s : State) : bool :=
  (length messages =? 0)%nat
  && (length (attachments s) =? 0)%nat
  && (length (uploadQueue s) =? 0)%nat.

(** The displayed value, the element's value and the durable slot
    agree. *)
Definition synced (s : State) : Prop :=
  value <$> textareaRef s = Some (input s)
  ∧ localStorage s !! "input" = Some (input s).

End Input.

(* ================================================================== *)
(** ** Properties of the route authorization gate *)
(* ================================================================== *)

Section AuthFacts.
Import Auth.

(** [authorized] returns the value of the [return] its control flow
    reaches. *)
Lemma authorized_at_site auth nextUrl :
  authorized auth nextUrl = site_value nextUrl (authorized_site auth nextUrl).
Proof.
  unfold authorized, authorized_site.
  destruct (isLoggedIn auth), (isOnLogin nextUrl), (isOnRegister nextUrl),
    (isOnChat nextUrl); reflexivity.
Qed.

End AuthFacts.



(** C9. Recognition of the login and register pages is by prefix: every
    pathname that begins with [/login] or [/register] is allowed when the
    request is unauthenticated and redirected home when it is
    authenticated; [/register-admin] and [/loginfoo] are such paths. *)
Theorem login_register_by_prefix (auth : option Auth.Session) (nextUrl : Auth.NextUrl) :
  startsWith (Auth.pathname nextUrl) "/login" = true
  ∨ startsWith (Auth.pathname nextUrl) "/register" = true →
  Auth.decision (Auth.authorized auth nextUrl)
    = (if Auth.isLoggedIn auth then Auth.RedirectHome else Auth.Allow)
  ∧ Auth.authorized_site auth nextUrl
    = (if Auth.isLoggedIn auth then Auth.Rule1 else Auth.Rule2).
Proof.
  intros Hpre.
  assert (Hor : Auth.isOnLogin nextUrl || Auth.isOnRegister nextUrl = true).
  { unfold Auth.isOnLogin, Auth.isOnRegister.
    destruct Hpre as [-> | ->]; [reflexivity | apply orb_true_r]. }
  unfold Auth.authorized, Auth.authorized_site.
  rewrite (orb_comm (Auth.isOnRegister nextUrl)), Hor, andb_true_r.
  destruct (Auth.isLoggedIn auth); split; reflexivity.
Qed.

Lemma login_register_by_prefix_witness :
  (startsWith (Auth.pathname (Auth.url "/register-admin")) "/login" = true
   ∨ startsWith (Auth.pathname (Auth.url "/register-admin")) "/register" = true)
  ∧ Auth.decision (Auth.authorized Auth.loggedIn (Auth.url "/register-admin"))
    = Auth.RedirectHome
  ∧ Auth.decision (Auth.authorized Auth.anonymous (Auth.url "/loginfoo"))
    = Auth.Allow.
Proof.
  split; [right; reflexivity|]. split.
  - apply (login_register_by_prefix Auth.loggedIn (Auth.url "/register-admin")).
    right; reflexivity.
  - apply (login_register_by_prefix Auth.anonymous (Auth.url "/loginfoo")).
    left; reflexivity.
Defined.

(** C10. The chat test holds for every request pathname, so
    [authorized] always returns from one of the first three rules: the two
    trailing [return] statements are never reached. *)
Theorem fallthrough_unreachable (auth : option Auth.Session) (nextUrl : Auth.NextUrl) :
  Auth.request_url nextUrl →
  Auth.isOnChat nextUrl = true
  ∧ Auth.authorized auth nextUrl
    = Auth.site_value nextUrl (Auth.authorized_site auth nextUrl)
  ∧ Auth.authorized_site auth nextUrl ≠ Auth.FallLoggedIn
  ∧ Auth.authorized_site auth nextUrl ≠ Auth.FallAnonymous.
Proof.
  intros Habs. unfold Auth.request_url in Habs.
  split; [exact Habs|]. split; [apply authorized_at_site|].
  unfold Auth.authorized_site, Auth.isOnChat. rewrite Habs.
  destruct (Auth.isLoggedIn auth), (Auth.isOnLogin nextUrl),
    (Auth.isOnRegister nextUrl); split; discriminate.
Qed.

Lemma fallthrough_unreachable_witness :
  Auth.request_url (Auth.url "/api/chat")
  ∧ Auth.authorized_site Auth.anonymous (Auth.url "/api/chat") ≠ Auth.FallAnonymous.
Proof.
  split; [reflexivity|].
  destruct (fallthrough_unreachable Auth.anonymous (Auth.url "/api/chat") eq_refl)
    as (_ & _ & _ & Hsite).
  exact Hsite.
Defined.

(* ================================================================== *)
(** ** Properties of the chat input component *)
(* ================================================================== *)

Section MonadFacts.
Import Input.
Context {A B : Type}.

Lemma calls_bind (m : M A) (f : A → M B) s :
  calls (bind m f) s = calls m s ++ calls (f (result m s)) (exec m s).
Proof. reflexivity. Qed.

Lemma exec_bind (m : M A) (f : A → M B) s :
  exec (bind m f) s = exec (f (result m s)) (exec m s).
Proof. reflexivity. Qed.

Lemma result_bind (m : M A) (f : A → M B) s :
  result (bind m f) s = result (f (result m s)) (exec m s).
Proof. reflexivity. Qed.

End MonadFacts.

Section SubmissionFacts.
Import Input.

Lemma wide_spec w : wide w = (768 <? w).
Proof.
  unfold wide. destruct (Z.ltb_spec 768 w) as [Hlt|Hge].
  - destruct (Z.eqb_spec w 0); [lia | reflexivity].
  - apply andb_false_r.
Qed.

Lemma length_zero_truthy (v : string) :
  (String.length v =? 0)%nat = negb (truthy v).
Proof. destruct v; reflexivity. Qed.

(** Whatever the state, [submitForm] invokes the send operation. *)
Lemma submitForm_submits s : submits submitForm s = true.
Proof. reflexivity. Qed.

(** The send button: a click submits exactly when submission is not
    blocked. While streaming the stop button stands in its place. *)
Lemma clickSend_submits s : submits clickSend s = negb (blocked s).
Proof.
  unfold submits, clickSend, renderControl, blocked, calls.
  destruct (isLoading s); [reflexivity|].
  unfold click, PureSendButton; cbn [disabled onClick].
  rewrite length_zero_truthy.
  destruct (truthy (input s)); [|reflexivity].
  destruct (0 <? length (uploadQueue s))%nat; reflexivity.
Qed.

(** Enter without Shift while a response streams: the warning, and
    nothing else. *)
Lemma enter_while_streaming s :
  isLoading s = true →
  calls (onKeyDown {| key := "Enter"; shiftKey := false |}) s
    = [PreventDefault; ToastError pleaseWait]
  ∧ exec (onKeyDown {| key := "Enter"; shiftKey := false |}) s = s.
Proof.
  intros Hl. unfold calls, exec, onKeyDown. cbn. rewrite Hl. split; reflexivity.
Qed.

(** Enter without Shift when no response streams: [submitForm] runs. *)
Lemma enter_when_idle s :
  isLoading s = false →
  calls (onKeyDown {| key := "Enter"; shiftKey := false |}) s
    = PreventDefault :: calls submitForm s
  ∧ exec (onKeyDown {| key := "Enter"; shiftKey := false |}) s = exec submitForm s.
Proof.
  intros Hl. unfold calls, exec, onKeyDown. cbn. rewrite Hl. split; reflexivity.
Qed.

(** Shift+Enter and every other key: the handler does nothing. *)
Lemma other_keys_ignored event s :
  String.eqb (key event) "Enter" && negb (shiftKey event) = false →
  calls (onKeyDown event) s = [] ∧ exec (onKeyDown event) s = s.
Proof. intros Hk. unfold calls, exec, onKeyDown. rewrite Hk. split; reflexivity. Qed.

End SubmissionFacts.

(** C1. The Enter key does not observe the blocking conditions the send
    button does. With an empty draft and nothing streaming, and likewise
    with a non-empty upload queue, submission is blocked and the send
    button does not submit, yet Enter without Shift invokes the send
    operation. *)
Theorem enter_submits_while_blocked :
  let enter := {| Input.key := "Enter"; Input.shiftKey := false |} in
  let uploading := Input.set_uploadQueue ["photo.png"] (Input.set_input "hi" Input.idle) in
  Input.blocked Input.idle = true
  ∧ Input.submits Input.clickSend Input.idle = false
  ∧ Input.submits (Input.onKeyDown enter) Input.idle = true
  ∧ Input.blocked uploading = true
  ∧ Input.submits Input.clickSend uploading = false
  ∧ Input.submits (Input.onKeyDown enter) uploading = true.
Proof. repeat split; reflexivity. Qed.

(** C5. With the textarea mounted, [submitForm] performs, in this order:
    the history replacement to [/chat/<chatId>]; the send operation with
    the current attachments; the clearing of the attachment list and of
    the stored draft; the reset of the textarea height to 98px; and, when
    and only when the viewport is wider than 768, the refocus of the
    textarea. *)
Theorem submitForm_steps (s : Input.State) (t : Input.Textarea) :
  Input.textareaRef s = Some t →
  Input.calls Input.submitForm s
    = [ Input.ReplaceState ("/chat/" +:+ Input.chatId s);
        Input.HandleSubmit (Input.attachments s);
        Input.SetAttachments [];
        Input.SetLocalStorageInput "";
        Input.SetStyleHeight Input.Auto;
        Input.SetStyleHeight (Input.Px 98) ]
      ++ (if 768 <? Input.width s then [Input.Focus] else [])
  ∧ Input.attachments (Input.exec Input.submitForm s) = []
  ∧ Input.localStorage (Input.exec Input.submitForm s) !! "input" = Some ""
  ∧ Input.height <$> Input.textareaRef (Input.exec Input.submitForm s)
    = Some (Input.Px 98).
Proof.
  intros Ht. destruct s as [id i l a q st ref w]. cbn in Ht. subst ref.
  unfold Input.calls, Input.exec, Input.submitForm. cbn.
  rewrite wide_spec.
  destruct (768 <? w); cbn; repeat split; try reflexivity;
    apply lookup_insert_eq.
Qed.

Lemma submitForm_steps_witness :
  Input.textareaRef Input.idle
    = Some {| Input.value := ""; Input.height := Input.Auto;
              Input.scrollHeightOf := Input.lines |}
  ∧ Input.calls Input.submitForm Input.idle
    = [ Input.ReplaceState "/chat/chat-1";
        Input.HandleSubmit [];
        Input.SetAttachments [];
        Input.SetLocalStorageInput "";
        Input.SetStyleHeight Input.Auto;
        Input.SetStyleHeight (Input.Px 98);
        Input.Focus ].
Proof.
  split; [reflexivity|].
  apply (submitForm_steps Input.idle
           {| Input.value := ""; Input.height := Input.Auto;
              Input.scrollHeightOf := Input.lines |}).
  reflexivity.
Defined.

Section SizingFacts.
Import Input.

Lemma adjusted_twice t : adjusted (adjusted t) = adjusted t.
Proof. reflexivity. Qed.

Lemma adjustHeight_exec s :
  exec adjustHeight s = set_textareaRef (adjusted <$> textareaRef s) s.
Proof. destruct s as [id i l a q st [t|] w]; reflexivity. Qed.

Lemma adjustHeight_calls s :
  calls adjustHeight s
  = match textareaRef s with
    | Some t => [SetStyleHeight Auto;
                 SetStyleHeight (Px (scrollHeightOf t (value t) Auto + 2))]
    | None => []
    end.
Proof. destruct s as [id i l a q st [t|] w]; reflexivity. Qed.

End SizingFacts.

(** C8. [adjustHeight] is idempotent. Called twice in a row on unchanged
    content it assigns the same heights both times and leaves the same
    state; the height it leaves is the scroll height measured after the
    collapse to auto, plus 2px. *)
Theorem adjustHeight_idempotent (s : Input.State) :
  Input.exec Input.adjustHeight (Input.exec Input.adjustHeight s)
    = Input.exec Input.adjustHeight s
  ∧ Input.calls Input.adjustHeight (Input.exec Input.adjustHeight s)
    = Input.calls Input.adjustHeight s
  ∧ Input.textareaRef (Input.exec Input.adjustHeight s)
    = (λ t, Input.with_height
              (Input.Px (Input.scrollHeight (Input.with_height Input.Auto t) + 2)) t)
      <$> Input.textareaRef s.
Proof.
  rewrite !adjustHeight_calls, !adjustHeight_exec.
  destruct s as [id i l a q st [t|] w]; repeat split; reflexivity.
Qed.

Section DraftFacts.
Import Input.

(** The seed of the displayed value, in priority order. *)
Lemma seed_order (domValue stored : string) :
  or_else (or_else domValue stored) ""
  = if truthy domValue then domValue
    else if truthy stored then stored
    else "".
Proof. unfold or_else. destruct (truthy domValue) eqn:Hd; [rewrite Hd|]; reflexivity. Qed.

Lemma or_else_empty (v : string) : or_else v "" = v.
Proof. destruct v; reflexivity. Qed.

(** After [mount] on a mounted textarea the displayed value is the seed,
    and the durable slot holds it too. *)
Lemma mount_seeds storage id rendered domValue layout w :
  let s := exec mount (reload storage id rendered domValue layout w) in
  let seed := or_else (or_else domValue (default "" (storage !! "input"))) "" in
  input s = seed
  ∧ localStorage s !! "input" = Some seed
  ∧ value <$> textareaRef s = Some seed.
Proof.
  unfold exec, mount, reload, localStorageInput. cbn.
  set (seed := or_else _ ""). 
  destruct (String.eqb_spec seed rendered) as [->|Hne]; cbn;
    repeat split; try reflexivity; apply lookup_insert_eq.
Qed.

(** Typing mirrors the new value into the durable slot. *)
Lemma typeText_mirrors s v :
  v ≠ input s →
  input (exec (typeText v) s) = v
  ∧ localStorage (exec (typeText v) s) !! "input" = Some v.
Proof.
  intros Hne. destruct s as [id i l a q st ref w]. cbn in Hne.
  unfold exec, typeText, handleInput. cbn.
  destruct (String.eqb_spec v i) as [->|_]; [congruence|].
  destruct ref as [t|]; cbn;
    (destruct (String.eqb_spec v i) as [->|_]; [congruence|]; cbn;
     split; [reflexivity | apply lookup_insert_eq]).
Qed.

(** A render in which [input] has changed writes it to the durable slot. *)
Lemma rerender_mirrors s previous :
  input s ≠ previous →
  localStorage (exec (rerender previous) s) !! "input" = Some (input s)
  ∧ input (exec (rerender previous) s) = input s.
Proof.
  intros Hne. destruct s as [id i l a q st ref w]. cbn in Hne.
  unfold exec, rerender. cbn.
  destruct (String.eqb_spec i previous) as [->|_]; [congruence|]. cbn.
  split; [apply lookup_insert_eq | reflexivity].
Qed.

End DraftFacts.

(** C6. The draft round-trips through durable storage. A change of the
    input value to [v] is mirrored to the slot keyed ["input"]; a new
    instance over that storage whose textarea holds no rendered value
    displays [v] again. In general the value displayed after
    initialization is the already-rendered value when there is one, else
    the stored value, else the empty string. *)
Theorem draft_roundtrip (s : Input.State) (v id rendered : string)
    (layout : string → Input.CssHeight → Z) (w : Z) :
  v ≠ Input.input s →
  let s1 := Input.exec (Input.typeText v) s in
  Input.input s1 = v
  ∧ Input.localStorage s1 !! "input" = Some v
  ∧ Input.input
      (Input.exec Input.mount
         (Input.reload (Input.localStorage s1) id rendered "" layout w)) = v
  ∧ (∀ (s0 : Input.State) (previous : string),
       Input.input s0 ≠ previous →
       Input.localStorage (Input.exec (Input.rerender previous) s0) !! "input"
       = Some (Input.input s0))
  ∧ ∀ (storage : gmap string string) (domValue : string),
      Input.input
        (Input.exec Input.mount
           (Input.reload storage id rendered domValue layout w))
      = if truthy domValue then domValue
        else if truthy (default "" (storage !! "input"))
             then default "" (storage !! "input")
             else "".
Proof.
  intros Hne s1.
  destruct (typeText_mirrors s v Hne) as [Hin Hst]. fold s1 in Hin, Hst.
  split; [exact Hin|]. split; [exact Hst|]. split; [|split].
  - destruct (mount_seeds (Input.localStorage s1) id rendered "" layout w) as [-> _].
    rewrite Hst. cbn. apply or_else_empty.
  - intros s0 previous Hchg. by apply rerender_mirrors.
  - intros storage domValue.
    destruct (mount_seeds storage id rendered domValue layout w) as [-> _].
    apply seed_order.
Qed.

Lemma draft_roundtrip_witness :
  "hello" ≠ Input.input Input.idle
  ∧ Input.input
      (Input.exec Input.mount
         (Input.reload
            (Input.localStorage (Input.exec (Input.typeText "hello") Input.idle))
            "chat-2" "" "" Input.lines 1024)) = "hello".
Proof.
  split; [discriminate|].
  apply (draft_roundtrip Input.idle "hello" "chat-2" "" Input.lines 1024).
  discriminate.
Defined.

Section UploadFacts.
Import Input.

(** Resuming an upload changes no state. *)
Lemma uploadFile_resume_exec answer s : exec (uploadFile_resume answer) s = s.
Proof.
  destruct answer as [[[] [data|]]|]; try reflexivity;
    unfold exec, uploadFile_resume, uploadFile_try; cbn.
  - destruct (getProp data "url"), (getProp data "pathname"),
      (getProp data "contentType"); reflexivity.
  - destruct (getProp data "error"); reflexivity.
Qed.

(** Its return value is [uploaded]. *)
Lemma uploadFile_resume_result file answer s :
  result (uploadFile_resume answer) s = uploaded (file, answer).
Proof.
  destruct answer as [[[] [data|]]|]; try reflexivity;
    unfold result, uploadFile_resume, uploadFile_try, uploaded; cbn.
  - destruct (getProp data "url"), (getProp data "pathname"),
      (getProp data "contentType"); reflexivity.
  - destruct (getProp data "error"); reflexivity.
Qed.

(** A successful upload makes no call; a failed one makes exactly one,
    an error notification. *)
Lemma uploadFile_resume_calls file answer s :
  (is_Some (uploaded (file, answer)) ∧ calls (uploadFile_resume answer) s = [])
  ∨ (uploaded (file, answer) = None
     ∧ ∃ message, calls (uploadFile_resume answer) s = [ToastError message]).
Proof.
  destruct answer as [[[] [data|]]|];
    unfold calls, uploadFile_resume, uploadFile_try, uploaded; cbn;
    try (right; split; [reflexivity | eexists; reflexivity]).
  - destruct (getProp data "url"), (getProp data "pathname"),
      (getProp data "contentType"); cbn;
      try (right; split; [reflexivity | eexists; reflexivity]).
    left; split; [eexists; reflexivity | reflexivity].
  - destruct (getProp data "error"); cbn;
      right; split; try reflexivity; eexists; reflexivity.
Qed.

Lemma uploadFile_resume_toasts job s :
  count isToastError (calls (uploadFile_resume (snd job)) s)
  = if failed job then 1%nat else 0%nat.
Proof.
  destruct job as [file answer]. unfold failed, succeeded. cbn [snd].
  destruct (uploadFile_resume_calls file answer s) as [[Hs ->] | [Hn [m ->]]].
  - rewrite bool_decide_eq_true_2 by exact Hs. reflexivity.
  - rewrite Hn, bool_decide_eq_false_2; [reflexivity|].
    intros [a Ha]; discriminate.
Qed.

(** *** Completions *)

Lemma settle_exec jobs order slots s : exec (settle jobs order slots) s = s.
Proof.
  revert slots. induction order as [|i rest IH]; intros slots; [reflexivity|].
  cbn [settle]. destruct (jobs !! i) as [job|]; [|apply IH].
  rewrite exec_bind, uploadFile_resume_exec. apply IH.
Qed.

Lemma settle_result jobs order slots s :
  result (settle jobs order slots) s = settled jobs order slots.
Proof.
  revert slots. induction order as [|i rest IH]; intros slots; [reflexivity|].
  cbn [settle settled]. destruct (jobs !! i) as [[file answer]|]; [|apply IH].
  rewrite result_bind, uploadFile_resume_exec.
  rewrite (uploadFile_resume_result file). apply IH.
Qed.

Lemma settle_toasts jobs order slots s :
  count isToastError (calls (settle jobs order slots) s)
  = count (failedAt jobs) order.
Proof.
  revert slots. induction order as [|i rest IH]; intros slots; [reflexivity|].
  cbn [settle]. unfold count at 2. cbn [List.filter]. unfold failedAt at 1.
  destruct (jobs !! i) as [job|]; [|apply IH].
  rewrite calls_bind, uploadFile_resume_exec.
  unfold count at 1. rewrite List.filter_app, length_app.
  fold (count isToastError (calls (uploadFile_resume job.2) s)).
  rewrite uploadFile_resume_toasts.
  match goal with |- context [calls (settle jobs rest ?sl) s] =>
    fold (count isToastError (calls (settle jobs rest sl) s)); rewrite (IH sl)
  end.
  destruct (failed job); reflexivity.
Qed.

Lemma settled_length jobs order slots :
  length (settled jobs order slots) = length slots.
Proof.
  revert slots. induction order as [|i rest IH]; intros slots; [reflexivity|].
  cbn [settled]. destruct (jobs !! i); [|apply IH].
  rewrite IH. apply length_insert.
Qed.

(** A slot whose upload has not completed is untouched. *)
Lemma settled_pending jobs order slots j :
  j ∉ order → settled jobs order slots !! j = slots !! j.
Proof.
  revert slots. induction order as [|i rest IH]; intros slots Hj; [reflexivity|].
  apply not_elem_of_cons in Hj as [Hne Hrest].
  cbn [settled]. destruct (jobs !! i); [|by apply IH].
  rewrite IH by exact Hrest. by apply list_lookup_insert_ne.
Qed.

(** A slot whose upload has completed holds that upload's result, at
    its own index. *)
Lemma settled_filled jobs order slots j job :
  jobs !! j = Some job → (j < length slots)%nat → j ∈ order →
  settled jobs order slots !! j = Some (Some (uploaded job)).
Proof.
  intros Hjob. revert slots.
  induction order as [|i rest IH]; intros slots Hlen Hin.
  { by apply elem_of_nil in Hin. }
  cbn [settled].
  destruct (decide (j ∈ rest)) as [Hrest|Hrest].
  - destruct (jobs !! i); [|by apply IH].
    apply IH; [|exact Hrest]. by rewrite length_insert.
  - apply elem_of_cons in Hin as [->|Hin]; [|contradiction].
    rewrite Hjob, settled_pending by exact Hrest.
    by apply list_lookup_insert_eq.
Qed.

(** Once every upload has completed, in whatever order, the slots hold
    the results in input order. *)
Lemma settled_all jobs order :
  order ≡ₚ seq 0 (length jobs) →
  settled jobs order (replicate (length jobs) None)
  = (λ job, Some (uploaded job)) <$> jobs.
Proof.
  intros Hperm. apply list_eq. intros j.
  rewrite list_lookup_fmap.
  destruct (jobs !! j) as [job|] eqn:Hjob; cbn.
  - apply (settled_filled jobs order _ j job Hjob).
    + rewrite length_replicate. by eapply lookup_lt_Some.
    + rewrite Hperm. apply elem_of_seq.
      split; [lia|]. apply lookup_lt_Some in Hjob. lia.
  - apply lookup_ge_None. rewrite settled_length, length_replicate.
    by apply lookup_ge_None.
Qed.

Lemma promiseAll_filled (results : list (option Attachment)) :
  promiseAll (Some <$> results) = Some results.
Proof.
  unfold promiseAll. induction results as [|r rest IH]; [reflexivity|].
  cbn. cbn in IH. by rewrite IH.
Qed.

Lemma defined_uploaded jobs : defined (uploaded <$> jobs) = omap uploaded jobs.
Proof.
  unfold defined. induction jobs as [|job rest IH]; [reflexivity|].
  cbn. destruct (uploaded job); cbn; by rewrite IH.
Qed.

End UploadFacts.

Section BatchFacts.
Import Input.



Lemma count_perm {A} (p : A → bool) l1 l2 :
  l1 ≡ₚ l2 → count p l1 = count p l2.
Proof.
  unfold count. induction 1 as [|x l l' _ IH|x y l|l l' l'' _ IH1 _ IH2]; cbn.
  - reflexivity.
  - destruct (p x); cbn; by rewrite IH.
  - destruct (p x), (p y); reflexivity.
  - by rewrite IH1.
Qed.


(** Counting failures by index is counting failed jobs. *)
Lemma count_failedAt_from (before jobs : list Job) :
  count (failedAt (before ++ jobs)) (seq (length before) (length jobs))
  = count failed jobs.
Proof.
  revert before. induction jobs as [|job rest IH]; intros before; [reflexivity|].
  cbn [length seq]. unfold count at 1 2. cbn [List.filter].
  unfold failedAt at 1. rewrite list_lookup_middle by reflexivity.
  specialize (IH (before ++ [job])).
  rewrite <- app_assoc, length_app in IH. cbn in IH.
  replace (length before + 1)%nat with (S (length before)) in IH by lia.
  unfold count in IH.
  destruct (failed job); cbn [length]; by rewrite IH.
Qed.

Lemma count_failedAt jobs order :
  order ≡ₚ seq 0 (length jobs) →
  count (failedAt jobs) order = count failed jobs.
Proof.
  intros Hperm. rewrite (count_perm _ _ _ Hperm).
  apply (count_failedAt_from [] jobs).
Qed.


(** Starting the uploads. *)
Lemma forEach_fetch_exec files s :
  exec (forEach (fetch "/api/files/upload" "POST") files) s = s.
Proof. induction files as [|f rest IH]; [reflexivity|]. cbn [forEach]. by rewrite exec_bind. Qed.

Lemma forEach_fetch_calls files s :
  calls (forEach (fetch "/api/files/upload" "POST") files) s
  = Fetch "/api/files/upload" "POST" <$> files.
Proof.
  induction files as [|f rest IH]; [reflexivity|].
  cbn [forEach]. rewrite calls_bind. cbn. f_equal. exact IH.
Qed.

Lemma handleFileChange_start_exec files s :
  exec (handleFileChange_start files) s = set_uploadQueue (file_name <$> files) s.
Proof. unfold handleFileChange_start. by rewrite exec_bind, forEach_fetch_exec. Qed.

Lemma handleFileChange_start_calls files s :
  calls (handleFileChange_start files) s
  = SetUploadQueue (file_name <$> files) :: (Fetch "/api/files/upload" "POST" <$> files).
Proof. unfold handleFileChange_start. rewrite calls_bind, forEach_fetch_calls. reflexivity. Qed.

(** The batch once every upload has completed. *)
Lemma handleFileChange_await_exec jobs order s :
  order ≡ₚ seq 0 (length jobs) →
  exec (handleFileChange_await jobs order) s
  = set_uploadQueue [] (set_attachments (attachments s ++ omap uploaded jobs) s).
Proof.
  intros Hperm. unfold handleFileChange_await.
  rewrite exec_bind, settle_exec, settle_result, (settled_all _ _ Hperm).
  rewrite (list_fmap_compose uploaded Some), promiseAll_filled.
  unfold handleFileChange_finish. rewrite defined_uploaded. reflexivity.
Qed.

Lemma handleFileChange_await_calls jobs order s :
  order ≡ₚ seq 0 (length jobs) →
  calls (handleFileChange_await jobs order) s
  = calls (settle jobs order (replicate (length jobs) None)) s
    ++ [SetAttachments (attachments s ++ omap uploaded jobs); SetUploadQueue []].
Proof.
  intros Hperm. unfold handleFileChange_await.
  rewrite calls_bind, settle_exec, settle_result, (settled_all _ _ Hperm).
  rewrite (list_fmap_compose uploaded Some), promiseAll_filled.
  unfold handleFileChange_finish. rewrite defined_uploaded. reflexivity.
Qed.


End BatchFacts.

(** C3. For a selection of N files, [handleFileChange] at once sets the
    pending list to the N file names. When every upload has settled, in
    whatever order they complete, the pending list is empty and the
    attachment list is the list as it stood before the update followed by
    the successful uploads in input order; a failed upload contributes
    nothing and does not stop the batch. *)
Theorem handleFileChange_batch (jobs : list Input.Job) (order : list nat)
    (s s' : Input.State) :
  order ≡ₚ seq 0 (length jobs) →
  Input.uploadQueue (Input.exec (Input.handleFileChange_start (fst <$> jobs)) s)
    = (λ job, Input.file_name (fst job)) <$> jobs
  ∧ length (Input.uploadQueue
              (Input.exec (Input.handleFileChange_start (fst <$> jobs)) s))
    = length jobs
  ∧ Input.uploadQueue (Input.exec (Input.handleFileChange_await jobs order) s') = []
  ∧ Input.attachments (Input.exec (Input.handleFileChange_await jobs order) s')
    = Input.attachments s' ++ omap Input.uploaded jobs
  ∧ Input.uploadQueue (Input.exec (Input.handleFileChange jobs order) s) = []
  ∧ Input.attachments (Input.exec (Input.handleFileChange jobs order) s)
    = Input.attachments s ++ omap Input.uploaded jobs.
Proof.
  intros Hperm.
  rewrite handleFileChange_start_exec.
  unfold Input.handleFileChange.
  rewrite exec_bind, handleFileChange_start_exec.
  rewrite !(handleFileChange_await_exec _ _ _ Hperm). cbn.
  rewrite <- list_fmap_compose, length_fmap.
  repeat split; reflexivity.
Qed.

Lemma handleFileChange_batch_witness :
  [2; 0; 1]%nat ≡ₚ seq 0 (length Input.picked)
  ∧ Input.attachments
      (Input.exec (Input.handleFileChange Input.picked [2; 0; 1]%nat) Input.idle)
    = [Input.photoAttachment; Input.videoAttachment].
Proof.
  split.
  - apply (Permutation_cons_app [0; 1]%nat [] 2%nat). reflexivity.
  - apply (handleFileChange_batch Input.picked [2; 0; 1]%nat Input.idle Input.idle).
    apply (Permutation_cons_app [0; 1]%nat [] 2%nat). reflexivity.
Defined.




Section SingleUploadFacts.
Import Input.

Lemma getProp_throws data k : getProp data k = Throw ↔ data = JNull.
Proof. destruct data; cbn; split; congruence. Qed.

Lemma getProp_normal data k : data ≠ JNull → ∃ v, getProp data k = Normal v.
Proof. destruct data; cbn; intros Hn; try congruence; eexists; reflexivity. Qed.

Lemma uploadFile_exec file answer s : exec (uploadFile file answer) s = s.
Proof. unfold uploadFile. rewrite exec_bind. apply uploadFile_resume_exec. Qed.

Lemma uploadFile_result file answer s :
  result (uploadFile file answer) s = uploaded (file, answer).
Proof. unfold uploadFile. rewrite result_bind. apply uploadFile_resume_result. Qed.

Lemma uploadFile_calls file answer s :
  calls (uploadFile file answer) s
  = Fetch "/api/files/upload" "POST" file :: calls (uploadFile_resume answer) s.
Proof. reflexivity. Qed.

(** An attachment comes back exactly from an OK response whose body
    parses to something other than [null]. *)
Lemma uploaded_is_Some file answer :
  is_Some (uploaded (file, answer))
  ↔ ∃ response data, answer = Some response ∧ ok response = true
                     ∧ json response = Some data ∧ data ≠ JNull.
Proof.
  unfold uploaded; cbn [snd]. split.
  - destruct answer as [[[] [data|]]|]; cbn; try (intros [? ?]; discriminate).
    intros Hsome. exists {| ok := true; json := Some data |}, data.
    repeat split. intros ->. cbn in Hsome. destruct Hsome; discriminate.
  - intros (response & data & -> & -> & -> & Hnn).
    destruct (getProp_normal data "url" Hnn) as [u ->].
    destruct (getProp_normal data "pathname" Hnn) as [p ->].
    destruct (getProp_normal data "contentType" Hnn) as [ct ->].
    eexists; reflexivity.
Qed.

End SingleUploadFacts.

(** C4, as the code has it. With status OK and a body that is not JSON,
    [uploadFile] returns no attachment and shows the generic notification;
    and an error response whose JSON body has no [error] member is shown
    as a notification without a message, not as the generic one. *)
Lemma upload_ok_without_attachment :
  let unreadable := {| Input.ok := true; Input.json := None |} in
  let unknown := {| Input.ok := false; Input.json := Some (Input.JObj []) |} in
  Input.ok unreadable = true
  ∧ Input.result (Input.uploadFile Input.photo (Some unreadable)) Input.idle = None
  ∧ Input.calls (Input.uploadFile Input.photo (Some unreadable)) Input.idle
    = [Input.Fetch "/api/files/upload" "POST" Input.photo;
       Input.ToastError Input.uploadFailed]
  ∧ Input.calls (Input.uploadFile Input.photo (Some unknown)) Input.idle
    = [Input.Fetch "/api/files/upload" "POST" Input.photo;
       Input.ToastError None].
Proof. repeat split; reflexivity. Qed.

(** C4, amended. [uploadFile] sends one request and never a second. It
    returns an attachment exactly when the response is OK and its body
    parses to JSON other than [null]; the attachment carries the body's
    [url], its [pathname] as the name, and its [contentType], and no
    notification is shown. On an error response whose body carries an
    [error] member that member is shown and nothing is returned. When the
    request fails, or the body does not parse or is [null], the generic
    failure notification is shown and nothing is returned. *)
Theorem uploadFile_outcomes (file : Input.File) (answer : option Input.Response)
    (s : Input.State) :
  Input.exec (Input.uploadFile file answer) s = s
  ∧ Input.count Input.isFetch (Input.calls (Input.uploadFile file answer) s) = 1%nat
  ∧ (is_Some (Input.result (Input.uploadFile file answer) s)
     ↔ ∃ response data,
         answer = Some response ∧ Input.ok response = true
         ∧ Input.json response = Some data ∧ data ≠ Input.JNull)
  ∧ (∀ response data u p ct,
       answer = Some response → Input.ok response = true →
       Input.json response = Some data →
       Input.getProp data "url" = Input.Normal u →
       Input.getProp data "pathname" = Input.Normal p →
       Input.getProp data "contentType" = Input.Normal ct →
       Input.result (Input.uploadFile file answer) s
         = Some {| Input.url := u; Input.name := p; Input.contentType := ct |}
       ∧ Input.calls (Input.uploadFile file answer) s
         = [Input.Fetch "/api/files/upload" "POST" file])
  ∧ (∀ response payload message,
       answer = Some response → Input.ok response = false →
       Input.json response = Some payload →
       Input.getProp payload "error" = Input.Normal (Some message) →
       Input.result (Input.uploadFile file answer) s = None
       ∧ Input.calls (Input.uploadFile file answer) s
         = [Input.Fetch "/api/files/upload" "POST" file;
            Input.ToastError (Some message)])
  ∧ (answer = None
     ∨ (∃ response, answer = Some response
          ∧ (Input.json response = None ∨ Input.json response = Some Input.JNull)) →
     Input.result (Input.uploadFile file answer) s = None
     ∧ Input.calls (Input.uploadFile file answer) s
       = [Input.Fetch "/api/files/upload" "POST" file;
          Input.ToastError Input.uploadFailed]).
Proof.
  split; [apply uploadFile_exec|]. split.
  { rewrite uploadFile_calls.
    destruct (uploadFile_resume_calls file answer s) as [[_ ->] | [_ [m ->]]];
      reflexivity. }
  split; [rewrite uploadFile_result; apply uploaded_is_Some|].
  split; [|split].
  - intros [o j] data u p ct -> Hok Hjson Hu Hp Hct. cbn in Hok, Hjson. subst o j.
    unfold Input.result, Input.calls, Input.uploadFile, Input.uploadFile_resume,
      Input.uploadFile_try. cbn. rewrite Hu, Hp, Hct. split; reflexivity.
  - intros [o j] payload message -> Hok Hjson Herr. cbn in Hok, Hjson. subst o j.
    unfold Input.result, Input.calls, Input.uploadFile, Input.uploadFile_resume,
      Input.uploadFile_try. cbn. rewrite Herr. split; reflexivity.
  - intros [-> | ([o j] & -> & [Hj | Hj])]; [split; reflexivity | |];
      cbn in Hj; subst j; destruct o; split; reflexivity.
Qed.

(* ================================================================== *)
(** ** Further properties of the route authorization gate *)
(* ================================================================== *)

(** X1. An authenticated request is never denied and an unauthenticated
    one is never redirected, whatever the path; and every redirect the
    callback issues goes to the home page of the request's own origin. *)
Theorem authorized_by_session (auth : option Auth.Session) (nextUrl : Auth.NextUrl) :
  (Auth.isLoggedIn auth = true → Auth.authorized auth nextUrl ≠ Auth.ReturnFalse)
  ∧ (Auth.isLoggedIn auth = false →
     Auth.authorized auth nextUrl = Auth.ReturnTrue
     ∨ Auth.authorized auth nextUrl = Auth.ReturnFalse)
  ∧ (∀ to base, Auth.authorized auth nextUrl = Auth.Redirect to base →
       to = "/" ∧ base = nextUrl ∧ Auth.isLoggedIn auth = true).
Proof.
  unfold Auth.authorized.
  destruct (Auth.isLoggedIn auth), (Auth.isOnLogin nextUrl),
    (Auth.isOnRegister nextUrl), (Auth.isOnChat nextUrl); cbn;
    (split; [|split]);
    try discriminate; try (intros _; auto; fail);
    try (intros to base [= <- <-]; auto);
    try (intros to base Heq; discriminate).
Qed.

(** X2. The callback denies a request exactly when it is unauthenticated,
    its path is recognised neither as login nor as register, and the path
    begins with a slash. *)
Theorem denied_exactly (auth : option Auth.Session) (nextUrl : Auth.NextUrl) :
  Auth.authorized auth nextUrl = Auth.ReturnFalse
  ↔ Auth.isLoggedIn auth = false
    ∧ startsWith (Auth.pathname nextUrl) "/login" = false
    ∧ startsWith (Auth.pathname nextUrl) "/register" = false
    ∧ startsWith (Auth.pathname nextUrl) "/" = true.
Proof.
  unfold Auth.authorized, Auth.isOnLogin, Auth.isOnRegister, Auth.isOnChat.
  destruct (Auth.isLoggedIn auth),
    (startsWith (Auth.pathname nextUrl) "/login"),
    (startsWith (Auth.pathname nextUrl) "/register"),
    (startsWith (Auth.pathname nextUrl) "/"); cbn;
    split; try discriminate; try tauto;
    intros (? & ? & ? & ?); discriminate.
Qed.

(** X3. No redirect loop: wherever the browser is sent after a denial (the
    configured sign-in page) or after a redirect (the home page), the same
    session is let through there. *)
Theorem landing_is_allowed (auth : option Auth.Session) (nextUrl : Auth.NextUrl) :
  ∀ there, Auth.landing (Auth.authorized auth nextUrl) nextUrl = Some there →
    Auth.authorized auth there = Auth.ReturnTrue.
Proof.
  intros there. unfold Auth.authorized at 1.
  destruct (Auth.isLoggedIn auth) eqn:Hin, (Auth.isOnLogin nextUrl),
    (Auth.isOnRegister nextUrl), (Auth.isOnChat nextUrl); cbn;
    try discriminate; intros [= <-];
    unfold Auth.authorized, Auth.isOnLogin, Auth.isOnRegister, Auth.isOnChat;
    rewrite Hin; reflexivity.
Qed.

Lemma landing_is_allowed_witness :
  Auth.landing (Auth.authorized Auth.anonymous (Auth.url "/chat-42")) (Auth.url "/chat-42")
    = Some (Auth.url "/login")
  ∧ Auth.authorized Auth.anonymous (Auth.url "/login") = Auth.ReturnTrue.
Proof.
  split; [reflexivity|].
  apply (landing_is_allowed Auth.anonymous (Auth.url "/chat-42") (Auth.url "/login")).
  reflexivity.
Defined.

(* ================================================================== *)
(** ** Properties of the model registry *)
(* ================================================================== *)

(** X4. The registry is well formed for the dispatch: model ids are
    pairwise distinct, the default model name is the id of a registered
    model, and [customModel] hands every registered model's API identifier,
    unchanged, to the provider its id names (Anthropic for the [claude-]
    ids, OpenAI for the others). *)
Theorem registry_dispatch :
  NoDup (Models.id <$> Models.models)
  ∧ Models.DEFAULT_MODEL_NAME ∈ (Models.id <$> Models.models)
  ∧ ∀ m, m ∈ Models.models →
      Models.customModel (Models.apiIdentifier m)
      = Models.wrapLanguageModel
          (if startsWith (Models.id m) "claude-"
           then Models.anthropic (Models.apiIdentifier m)
           else Models.openai (Models.apiIdentifier m))
          Models.customMiddleware.
Proof.
  split; [|split].
  - apply (bool_decide_unpack _). vm_compute. exact I.
  - apply (bool_decide_unpack _). vm_compute. exact I.
  - intros m Hm. unfold Models.models in Hm.
    repeat (apply elem_of_cons in Hm as [-> | Hm]; [reflexivity|]).
    by apply elem_of_nil in Hm.
Qed.

(* ================================================================== *)
(** ** Further properties of the chat input component *)
(* ================================================================== *)

(** X5. The memo comparator of the send button is sound for what the
    button shows: whenever it keeps the rendered button, the button
    rendered from the new props would have had the same [disabled] flag.
    The [submitForm] prop is not compared. *)
Theorem sendButton_memo_sound (prevProps nextProps : Input.SendButtonProps) :
  Input.sendButtonPropsEqual prevProps nextProps = true →
  Input.disabled (Input.renderSendButton prevProps)
  = Input.disabled (Input.renderSendButton nextProps).
Proof.
  unfold Input.sendButtonPropsEqual, Input.renderSendButton, Input.PureSendButton.
  cbn [Input.disabled].
  destruct (Nat.eqb_spec (length (Input.props_uploadQueue prevProps))
              (length (Input.props_uploadQueue nextProps))) as [Hlen|]; cbn;
    [|discriminate].
  destruct (String.eqb_spec (Input.props_input prevProps)
              (Input.props_input nextProps)) as [Hin|]; cbn; [|discriminate].
  intros _. by rewrite Hlen, Hin.
Qed.

Lemma sendButton_memo_sound_witness :
  Input.sendButtonPropsEqual
    {| Input.props_submitForm := Input.submitForm; Input.props_input := "hi";
       Input.props_uploadQueue := ["a.png"] |}
    {| Input.props_submitForm := Input.ret (); Input.props_input := "hi";
       Input.props_uploadQueue := ["b.png"] |} = true
  ∧ Input.disabled
      (Input.renderSendButton
         {| Input.props_submitForm := Input.submitForm; Input.props_input := "hi";
            Input.props_uploadQueue := ["a.png"] |})
    = Input.disabled
        (Input.renderSendButton
           {| Input.props_submitForm := Input.ret (); Input.props_input := "hi";
              Input.props_uploadQueue := ["b.png"] |}).
Proof.
  split; [reflexivity|].
  apply sendButton_memo_sound. reflexivity.
Defined.

Section MemoFacts.
Import Input.

(** The closure of a render from state [s] is [submitForm] on [s]. *)
Lemma submitFormOf_current s :
  submitFormOf (chatId s) (attachments s) (width s) s = submitForm s.
Proof. reflexivity. Qed.

(** A closure sends the attachments it captured, whatever the state it
    runs on. *)
Lemma submitFormOf_sends id captured w s :
  List.filter isHandleSubmit (calls (submitFormOf id captured w) s)
  = [HandleSubmit captured].
Proof.
  destruct s as [id' i l a q st [t|] w']; unfold calls, submitFormOf; cbn;
    destruct (wide w); reflexivity.
Qed.

End MemoFacts.

(** X6. A click on the control on screen at the bottom right, the send
    button being memoised. While a response streams the control is the
    stop button: the click calls [stop], then sanitises the messages, and
    leaves draft, attachments, queue and storage as they are. Otherwise
    it is the send button. When submission is blocked the click does
    nothing at all, whichever render the button was kept from. When it is
    not blocked and the comparator has found the props different, the
    click runs the [submitForm] of the current render. When the comparator
    has kept the button, the click runs the [submitForm] the button was
    kept with: a closure from an earlier render sends the attachments of
    that render, not the current ones. *)
Theorem clickMemoControl_cases (keptProps : Input.SendButtonProps) (s : Input.State) :
  (Input.isLoading s = true →
     Input.calls (Input.clickMemoControl keptProps) s
       = [Input.PreventDefault; Input.Stop; Input.SanitizeMessages]
     ∧ Input.exec (Input.clickMemoControl keptProps) s = s)
  ∧ (Input.isLoading s = false → Input.blocked s = true →
     Input.calls (Input.clickMemoControl keptProps) s = []
     ∧ Input.exec (Input.clickMemoControl keptProps) s = s)
  ∧ (Input.blocked s = false →
     Input.sendButtonPropsEqual keptProps (Input.sendButtonProps s) = false →
     Input.calls (Input.clickMemoControl keptProps) s
       = Input.PreventDefault :: Input.calls Input.submitForm s
     ∧ Input.exec (Input.clickMemoControl keptProps) s
       = Input.exec Input.submitForm s)
  ∧ (Input.blocked s = false →
     Input.sendButtonPropsEqual keptProps (Input.sendButtonProps s) = true →
     Input.calls (Input.clickMemoControl keptProps) s
       = Input.PreventDefault :: Input.calls (Input.props_submitForm keptProps) s
     ∧ Input.exec (Input.clickMemoControl keptProps) s
       = Input.exec (Input.props_submitForm keptProps) s
     ∧ ∀ id captured w,
         Input.props_submitForm keptProps = Input.submitFormOf id captured w →
         List.filter Input.isHandleSubmit
           (Input.calls (Input.clickMemoControl keptProps) s)
         = [Input.HandleSubmit captured]).
Proof.
  unfold Input.clickMemoControl, Input.renderMemoControl, Input.blocked,
    Input.calls, Input.exec.
  destruct (Input.isLoading s); cbn.
  { repeat split; intros; try discriminate; reflexivity. }
  unfold Input.memoSendButton, Input.sendButtonPropsEqual.
  cbn [Input.sendButtonProps Input.props_input Input.props_uploadQueue].
  destruct (Nat.eqb_spec (length (Input.props_uploadQueue keptProps))
              (length (Input.uploadQueue s))) as [Hlen|Hlen]; cbn [negb].
  - destruct (String.eqb_spec (Input.props_input keptProps) (Input.input s))
      as [Hin|Hin]; cbn [negb];
      unfold Input.click, Input.renderSendButton, Input.PureSendButton;
      cbn [Input.disabled Input.onClick Input.sendButtonProps
           Input.props_input Input.props_uploadQueue Input.props_submitForm];
      rewrite ?Hlen, ?Hin, !length_zero_truthy;
      destruct (truthy (Input.input s)), (Input.uploadQueue s) as [|f q]; cbn;
      repeat split; intros; try discriminate; try reflexivity.
    match goal with H : Input.props_submitForm keptProps = _ |- _ => rewrite H end.
    apply (submitFormOf_sends _ _ _ s).
  - unfold Input.click, Input.renderSendButton, Input.PureSendButton;
      cbn [Input.disabled Input.onClick Input.sendButtonProps
           Input.props_input Input.props_uploadQueue Input.props_submitForm].
    rewrite length_zero_truthy.
    destruct (truthy (Input.input s)), (Input.uploadQueue s) as [|f q]; cbn;
      repeat split; intros; try discriminate; reflexivity.
Qed.

(** X7. The key handler suppresses the key's default action exactly for
    Enter without Shift; for every other key, and for Shift+Enter, it makes
    no call and changes nothing, so the newline is typed and nothing is
    submitted. *)
Theorem onKeyDown_default (event : Input.KeyboardEvent) (s : Input.State) :
  (Input.PreventDefault ∈ Input.calls (Input.onKeyDown event) s
   ↔ Input.key event = "Enter" ∧ Input.shiftKey event = false)
  ∧ (¬ (Input.key event = "Enter" ∧ Input.shiftKey event = false) →
     Input.calls (Input.onKeyDown event) s = []
     ∧ Input.exec (Input.onKeyDown event) s = s).
Proof.
  unfold Input.onKeyDown, Input.calls, Input.exec.
  destruct (String.eqb_spec (Input.key event) "Enter") as [Hk|Hk];
    destruct (Input.shiftKey event); cbn.
  - split; [split|]; [intros H; by apply elem_of_nil in H | intros [_ ?]; discriminate
                     | intros _; split; reflexivity].
  - split; [split|]; [intros _; split; [exact Hk | reflexivity]
                     | intros _; apply list_elem_of_here
                     | intros Hn; exfalso; apply Hn; split; [exact Hk | reflexivity]].
  - split; [split|]; [intros H; by apply elem_of_nil in H | intros [? _]; contradiction
                     | intros _; split; reflexivity].
  - split; [split|]; [intros H; by apply elem_of_nil in H | intros [? _]; contradiction
                     | intros _; split; reflexivity].
Qed.

(** X8. The suggested actions are rendered exactly when there is no
    message and no attachment preview; in particular never while an
    upload is pending. *)
Theorem suggestions_without_previews {Message} (messages : list Message)
    (s : Input.State) :
  Input.showSuggestedActions messages s = true
  ↔ messages = [] ∧ Input.previews s = [].
Proof.
  unfold Input.showSuggestedActions, Input.previews.
  destruct messages as [|m ms], (Input.attachments s) as [|a rest],
    (Input.uploadQueue s) as [|f q]; cbn;
    split; try discriminate; try (intros [? ?]; discriminate); auto.
Qed.

Section TraceFacts.
Import Input.

(** The completions of a batch make error notifications and no other
    call. *)
Lemma settle_only_toasts jobs order slots s :
  Forall (λ c, isToastError c = true) (calls (settle jobs order slots) s).
Proof.
  revert slots. induction order as [|i rest IH]; intros slots; [constructor|].
  cbn [settle]. destruct (jobs !! i) as [[file answer]|]; [|apply IH].
  rewrite calls_bind, uploadFile_resume_exec. apply Forall_app. split; [|apply IH].
  cbn [snd].
  destruct (uploadFile_resume_calls file answer s) as [[_ ->] | [_ [m ->]]];
    repeat constructor.
Qed.

Lemma filter_all {A} (p : A → bool) l :
  Forall (λ x, p x = true) l → List.filter p l = l.
Proof. induction 1 as [|x l Hx _ IH]; [reflexivity|]. cbn. by rewrite Hx, IH. Qed.

End TraceFacts.

Section MoreBatchFacts.
Import Input.

Lemma submitForm_state s :
  attachments (exec submitForm s) = []
  ∧ uploadQueue (exec submitForm s) = uploadQueue s
  ∧ input (exec submitForm s) = input s
  ∧ localStorage (exec submitForm s) = <["input" := ""]> (localStorage s)
  ∧ List.filter isHandleSubmit (calls submitForm s) = [HandleSubmit (attachments s)].
Proof.
  destruct s as [id i l a q st [t|] w]; unfold exec, calls, submitForm; cbn;
    destruct (wide w); cbn; repeat split; reflexivity.
Qed.

(** [Promise.all] stays pending while a slot is empty. *)
Lemma promiseAll_pending (slots : Slots) i :
  slots !! i = Some None → promiseAll slots = None.
Proof.
  intros Hi. unfold promiseAll. apply mapM_None.
  apply Exists_exists. exists None. split; [|reflexivity].
  by eapply list_elem_of_lookup_2.
Qed.

End MoreBatchFacts.

(** X9. A submission made while uploads are in flight sends the message
    with the attachments that were already there and without the files
    being uploaded; it leaves the upload queue as it is, and when the
    uploads settle their successes become the attachments of the next
    message. *)
Theorem submit_during_upload (jobs : list Input.Job) (order : list nat)
    (s : Input.State) :
  order ≡ₚ seq 0 (length jobs) →
  let s1 := Input.exec (Input.handleFileChange_start (fst <$> jobs)) s in
  let s2 := Input.exec Input.submitForm s1 in
  let s3 := Input.exec (Input.handleFileChange_await jobs order) s2 in
  List.filter Input.isHandleSubmit (Input.calls Input.submitForm s1)
    = [Input.HandleSubmit (Input.attachments s)]
  ∧ Input.uploadQueue s2 = (λ job, Input.file_name (fst job)) <$> jobs
  ∧ Input.attachments s2 = []
  ∧ Input.attachments s3 = omap Input.uploaded jobs
  ∧ Input.uploadQueue s3 = [].
Proof.
  intros Hperm s1 s2 s3.
  destruct (submitForm_state s1) as (Hatt & Hq & _ & _ & Hcalls).
  fold s2 in Hatt, Hq.
  assert (Hs1 : s1 = Input.set_uploadQueue (Input.file_name <$> (fst <$> jobs)) s)
    by apply handleFileChange_start_exec.
  split; [rewrite Hcalls, Hs1; reflexivity|].
  split; [rewrite Hq, Hs1; cbn; by rewrite <- list_fmap_compose|].
  split; [exact Hatt|].
  unfold s3. rewrite (handleFileChange_await_exec _ _ _ Hperm). cbn.
  rewrite Hatt. split; reflexivity.
Qed.

Lemma submit_during_upload_witness :
  [2; 0; 1]%nat ≡ₚ seq 0 (length Input.picked)
  ∧ Input.attachments
      (Input.exec (Input.handleFileChange_await Input.picked [2; 0; 1]%nat)
         (Input.exec Input.submitForm
            (Input.exec (Input.handleFileChange_start (fst <$> Input.picked))
               Input.idle)))
    = omap Input.uploaded Input.picked.
Proof.
  split.
  - apply (Permutation_cons_app [0; 1]%nat [] 2%nat). reflexivity.
  - apply (submit_during_upload Input.picked [2; 0; 1]%nat Input.idle).
    apply (Permutation_cons_app [0; 1]%nat [] 2%nat). reflexivity.
Defined.

(** X10. Two selections that overlap. The second selection replaces the
    pending list instead of extending it; when the first batch settles the
    pending list is emptied although the second is still uploading; and
    the attachments end up grouped by batch in the order the batches
    settle, whichever was selected first. *)
Theorem overlapping_batches (first second : list Input.Job)
    (order1 order2 : list nat) (s : Input.State) :
  order1 ≡ₚ seq 0 (length first) →
  order2 ≡ₚ seq 0 (length second) →
  let started :=
    Input.exec (Input.handleFileChange_start (fst <$> second))
      (Input.exec (Input.handleFileChange_start (fst <$> first)) s) in
  let settled1 := Input.exec (Input.handleFileChange_await first order1) started in
  Input.uploadQueue started = (λ job, Input.file_name (fst job)) <$> second
  ∧ Input.uploadQueue settled1 = []
  ∧ Input.attachments settled1
    = Input.attachments s ++ omap Input.uploaded first
  ∧ Input.attachments
      (Input.exec (Input.handleFileChange_await second order2) settled1)
    = Input.attachments s ++ omap Input.uploaded first ++ omap Input.uploaded second
  ∧ Input.attachments
      (Input.exec (Input.handleFileChange_await first order1)
         (Input.exec (Input.handleFileChange_await second order2) started))
    = Input.attachments s ++ omap Input.uploaded second ++ omap Input.uploaded first.
Proof.
  intros H1 H2 started settled1. unfold settled1, started.
  rewrite !handleFileChange_start_exec.
  rewrite !(handleFileChange_await_exec _ _ _ H1),
    !(handleFileChange_await_exec _ _ _ H2). cbn.
  rewrite <- list_fmap_compose, <- !app_assoc.
  repeat split; reflexivity.
Qed.

Lemma overlapping_batches_witness :
  [2; 0; 1]%nat ≡ₚ seq 0 (length Input.picked)
  ∧ [0]%nat ≡ₚ seq 0 (length [(Input.notes, @None Input.Response)])
  ∧ Input.uploadQueue
      (Input.exec (Input.handleFileChange_await Input.picked [2; 0; 1]%nat)
         (Input.exec
            (Input.handleFileChange_start
               (fst <$> [(Input.notes, @None Input.Response)]))
            (Input.exec (Input.handleFileChange_start (fst <$> Input.picked))
               Input.idle))) = [].
Proof.
  split; [|split].
  - apply (Permutation_cons_app [0; 1]%nat [] 2%nat). reflexivity.
  - reflexivity.
  - apply (overlapping_batches Input.picked [(Input.notes, None)]
             [2; 0; 1]%nat [0]%nat Input.idle).
    + apply (Permutation_cons_app [0; 1]%nat [] 2%nat). reflexivity.
    + reflexivity.
Defined.

(** X11. Nothing is attached before the last upload of a batch has
    completed: while one upload is outstanding, the completed ones change
    neither the attachment list nor the pending list (their notifications
    apart), so one upload that never completes holds back the whole
    batch. *)
Theorem batch_waits_for_all (jobs : list Input.Job) (order : list nat)
    (i : nat) (s : Input.State) :
  (i < length jobs)%nat → i ∉ order →
  Input.exec (Input.handleFileChange_await jobs order) s = s
  ∧ Input.calls (Input.handleFileChange_await jobs order) s
    = Input.calls (Input.settle jobs order (replicate (length jobs) None)) s
  ∧ Input.count Input.isToastError
      (Input.calls (Input.handleFileChange_await jobs order) s)
    = Input.count (Input.failedAt jobs) order
  ∧ Forall (λ c, Input.isToastError c = true)
      (Input.calls (Input.handleFileChange_await jobs order) s).
Proof.
  intros Hi Hout.
  assert (Hpend : Input.promiseAll
            (Input.settled jobs order (replicate (length jobs) None)) = None).
  { apply (promiseAll_pending _ i).
    rewrite settled_pending by exact Hout.
    by apply lookup_replicate_2. }
  unfold Input.handleFileChange_await.
  rewrite exec_bind, calls_bind, settle_exec, settle_result, Hpend.
  cbn. rewrite app_nil_r.
  split; [reflexivity|]. split; [reflexivity|].
  split; [apply settle_toasts | apply settle_only_toasts].
Qed.

Lemma batch_waits_for_all_witness :
  (1 < length Input.picked)%nat ∧ (1%nat ∉ [2; 0]%nat)
  ∧ Input.exec (Input.handleFileChange_await Input.picked [2; 0]%nat)
      (Input.exec (Input.handleFileChange_start (fst <$> Input.picked)) Input.idle)
    = Input.exec (Input.handleFileChange_start (fst <$> Input.picked)) Input.idle.
Proof.
  assert (Hlt : (1 < length Input.picked)%nat) by (cbn; lia).
  assert (Hout : 1%nat ∉ [2; 0]%nat).
  { intros Hin. apply elem_of_cons in Hin as [Heq | Hin]; [discriminate|].
    apply elem_of_cons in Hin as [Heq | Hin]; [discriminate|].
    by apply elem_of_nil in Hin. }
  split; [exact Hlt|]. split; [exact Hout|].
  apply (batch_waits_for_all Input.picked [2; 0]%nat 1%nat _ Hlt Hout).
Defined.

(** X12. A submitted draft does not come back: after [submitForm] the
    durable slot holds the empty string, and a new instance over that
    storage, in which the parent renders the empty string and the
    textarea holds nothing, displays the empty string and leaves the slot
    empty. *)
Theorem submitted_draft_not_restored (s : Input.State) (id : string)
    (layout : string → Input.CssHeight → Z) (w : Z) :
  let storage := Input.localStorage (Input.exec Input.submitForm s) in
  let s' := Input.exec Input.mount (Input.reload storage id "" "" layout w) in
  storage !! "input" = Some ""
  ∧ Input.input s' = ""
  ∧ Input.localStorage s' !! "input" = Some "".
Proof.
  intros storage s'.
  destruct (submitForm_state s) as (_ & _ & _ & Hst & _).
  assert (Hslot : storage !! "input" = Some "")
    by (unfold storage; rewrite Hst; apply lookup_insert_eq).
  split; [exact Hslot|].
  destruct (mount_seeds storage id "" "" layout w) as (Hin & Hsl & _).
  fold s' in Hin, Hsl. rewrite Hslot in Hin, Hsl. cbn in Hin, Hsl.
  split; assumption.
Qed.

(** X13. An edit that changes the displayed value, on a mounted textarea:
    afterwards the displayed value, the value of the textarea element and
    the durable slot all hold the typed text, and the height is the scroll
    height of that text at auto height plus two, whatever the height was
    before. The element shows the displayed value beforehand, as a
    controlled textarea does. *)
Theorem typeText_syncs (s : Input.State) (t : Input.Textarea) (v : string) :
  Input.textareaRef s = Some t →
  Input.value t = Input.input s →
  v ≠ Input.input s →
  let s' := Input.exec (Input.typeText v) s in
  Input.input s' = v
  ∧ Input.localStorage s' !! "input" = Some v
  ∧ Input.textareaRef s'
    = Some {| Input.value := v;
              Input.height := Input.Px (Input.scrollHeightOf t v Input.Auto + 2);
              Input.scrollHeightOf := Input.scrollHeightOf t |}
  ∧ Input.synced s'.
Proof.
  intros Ht _ Hne. destruct s as [id i l a q st ref w]. cbn in Ht, Hne. subst ref.
  unfold Input.synced, Input.exec, Input.typeText, Input.handleInput. cbn.
  destruct (String.eqb_spec v i) as [->|_]; [congruence|]. cbn.
  destruct (String.eqb_spec v i) as [->|_]; [congruence|]. cbn.
  repeat split; try reflexivity; apply lookup_insert_eq.
Qed.

Lemma typeText_syncs_witness :
  Input.textareaRef (Input.exec Input.mount Input.idle)
    = Some {| Input.value := ""; Input.height := Input.Px 26;
              Input.scrollHeightOf := Input.lines |}
  ∧ "" = Input.input (Input.exec Input.mount Input.idle)
  ∧ "hello" ≠ Input.input (Input.exec Input.mount Input.idle)
  ∧ Input.height
      <$> Input.textareaRef
            (Input.exec (Input.typeText "hello") (Input.exec Input.mount Input.idle))
    = Some (Input.Px 146).
Proof.
  split; [reflexivity|]. split; [reflexivity|]. split; [discriminate|].
  destruct (typeText_syncs (Input.exec Input.mount Input.idle)
              {| Input.value := ""; Input.height := Input.Px 26;
                 Input.scrollHeightOf := Input.lines |} "hello")
    as (_ & _ & Href & _).
  - reflexivity.
  - reflexivity.
  - discriminate.
  - rewrite Href. reflexivity.
Defined.


(** X15. The calls of a whole batch, in order: the pending list is set;
    one POST to [/api/files/upload] per file, in input order, all of them
    before any upload is resumed; then the error notifications, one per
    failed upload and nothing else; and last the single update of the
    attachment list followed by the clearing of the pending list. *)
Theorem handleFileChange_trace (jobs : list Input.Job) (order : list nat)
    (s : Input.State) :
  order ≡ₚ seq 0 (length jobs) →
  ∃ notifications,
    Input.calls (Input.handleFileChange jobs order) s
    = Input.SetUploadQueue ((λ job, Input.file_name (fst job)) <$> jobs)
      :: (Input.Fetch "/api/files/upload" "POST" <$> (fst <$> jobs))
      ++ notifications
      ++ [ Input.SetAttachments (Input.attachments s ++ omap Input.uploaded jobs);
           Input.SetUploadQueue [] ]
    ∧ Forall (λ c, Input.isToastError c = true) notifications
    ∧ length notifications = Input.count Input.failed jobs.
Proof.
  intros Hperm.
  exists (Input.calls (Input.settle jobs order (replicate (length jobs) None))
            (Input.exec (Input.handleFileChange_start (fst <$> jobs)) s)).
  split; [|split].
  - unfold Input.handleFileChange.
    rewrite calls_bind, handleFileChange_start_calls,
      (handleFileChange_await_calls _ _ _ Hperm), handleFileChange_start_exec.
    cbn. by rewrite <- list_fmap_compose.
  - apply settle_only_toasts.
  - rewrite <- (count_failedAt _ _ Hperm), <- (settle_toasts jobs order
      (replicate (length jobs) None)
      (Input.exec (Input.handleFileChange_start (fst <$> jobs)) s)).
    unfold Input.count. symmetry. f_equal.
    apply filter_all, settle_only_toasts.
Qed.

Lemma handleFileChange_trace_witness :
  [2; 0; 1]%nat ≡ₚ seq 0 (length Input.picked)
  ∧ ∃ notifications,
      Input.calls (Input.handleFileChange Input.picked [2; 0; 1]%nat) Input.idle
      = Input.SetUploadQueue ["photo.png"; "notes.txt"; "video.mp4"]
        :: (Input.Fetch "/api/files/upload" "POST"
              <$> [Input.photo; Input.notes; Input.video])
        ++ notifications
        ++ [ Input.SetAttachments [Input.photoAttachment; Input.videoAttachment];
             Input.SetUploadQueue [] ]
      ∧ Forall (λ c, Input.isToastError c = true) notifications
      ∧ length notifications = 1%nat.
Proof.
  split.
  - apply (Permutation_cons_app [0; 1]%nat [] 2%nat). reflexivity.
  - apply (handleFileChange_trace Input.picked [2; 0; 1]%nat Input.idle).
    apply (Permutation_cons_app [0; 1]%nat [] 2%nat). reflexivity.
Defined.
